(** * RADSan example: a realtime function invoking a by-value closure

    Shallow embedding of [examples/lambda_templated_invoke_big_capture.cpp]:

    <<
    template <typename Func> float invoke(Func &&func) { return func(); }

    [[clang::realtime]] float process() {
      auto data = std::array<float, 8>{};
      return invoke([data]() { return data[3]; });
    }

    int main() {
      std::cout << "I should pass!\n";
      return process();
    }
    >>

    The program is sequential.  Its effects are threaded explicitly: the
    text written to [std::cout], the automatic storage of [process], and
    the state a callable object may carry.  Operations whose behaviour the
    language leaves undefined (an index out of range, a float that does
    not fit an [int]) end the run with a [Fault]. *)

From Stdlib Require Import ZArith String Ascii.
From Stdlib Require Import Floats.SpecFloat.
From stdpp Require Import gmap strings list fin_maps.

Local Open Scope string_scope.

(** ** Values *)

(** A C++ [float]: sign, mantissa and exponent as in IEEE 754.  [0.0f] is
    the positive zero. *)
Definition float : Type := spec_float.

Definition float_zero : float := S754_zero false.

(** [1.0f], as 2^23 * 2^-23; used to fill buffers in examples. *)
Definition float_one : float := S754_finite false 8388608 (-23).

(** [std::array<float, N>]: its elements in order.  The type fixes the
    length; lemmas about an array of 8 floats carry it as a hypothesis. *)
Definition array : Type := list float.

(** [std::array<float, N>{}]: value-initialisation zeroes every element. *)
Definition array_value_init (n : nat) : array := replicate n float_zero.

(** ** Machine state *)

(** The automatic variables of one function activation. *)
Abbreviation Frame := (gmap string array).

Record World : Type := mkWorld {
  stdout : string;        (* everything written to std::cout so far *)
  stack : list Frame      (* activation frames, innermost first *)
}.

Definition initial_world : World := {| stdout := ""; stack := [] |}.

(** What ends a run without a result. *)
Inductive Fault : Type :=
| OutOfRange (idx size : nat)   (* operator[] outside [0, size) *)
| UnboundLocal (x : string)     (* a name with no live variable *)
| NoFrame                       (* no activation to work in *)
| NotAnInt.                     (* float to int of a value int cannot hold *)

Inductive Outcome (A : Type) : Type :=
| Done (a : A) (w : World)
| Undefined (f : Fault).

Arguments Done {A} a w.
Arguments Undefined {A} f.

(** A computation: from the world it starts in to its outcome. *)
Definition M (A : Type) : Type := World -> Outcome A.

#[export] Instance M_ret : MRet M := fun A (a : A) w => Done a w.

#[export] Instance M_bind : MBind M := fun A B (k : A -> M B) (m : M A) w =>
  match m w with
  | Done a w' => k a w'
  | Undefined f => Undefined f
  end.

Definition fault {A} (f : Fault) : M A := fun _ => Undefined f.

(** ** Storage *)

(** Entering a function opens an empty frame. *)
Definition push_frame : M unit :=
  fun w => Done tt {| stdout := stdout w; stack := ∅ :: stack w |}.

(** Leaving it destroys the frame and every variable in it. *)
Definition pop_frame : M unit :=
  fun w => match stack w with
           | _ :: rest => Done tt {| stdout := stdout w; stack := rest |}
           | [] => Undefined NoFrame
           end.

(** [auto x = v;] *)
Definition declare_local (x : string) (v : array) : M unit :=
  fun w => match stack w with
           | fr :: rest =>
               Done tt {| stdout := stdout w; stack := <[x := v]> fr :: rest |}
           | [] => Undefined NoFrame
           end.

(** The value of the variable [x] of the current activation. *)
Definition read_local (x : string) : M array :=
  fun w => match stack w with
           | fr :: _ =>
               match fr !! x with
               | Some v => Done v w
               | None => Undefined (UnboundLocal x)
               end
           | [] => Undefined NoFrame
           end.

(** [a[i]]: undefined outside the array. *)
Definition array_index (a : array) (i : nat) : M float :=
  match a !! i with
  | Some x => mret x
  | None => fault (OutOfRange i (length a))
  end.

(** ** Output *)

Definition newline : string := String (ascii_of_nat 10) "".

(** [std::cout << s] *)
Definition cout_write (s : string) : M unit :=
  fun w => Done tt {| stdout := stdout w ++ s; stack := stack w |}.

(** ** Callables *)

(** What [invoke] asks of its template parameter [Func]: an [operator()]
    taking no argument whose result is a [float].  The call may change the
    world and the callable object itself, which [invoke] holds by
    reference; it yields the result and the object as the call left it. *)
Class Callable (Func : Type) : Type :=
  call : Func -> M (float * Func).

(** [template <typename Func> float invoke(Func &&func) { return func(); }] *)
Definition invoke {Func} `{Callable Func} (func : Func) : M (float * Func) :=
  r ← call func;
  mret r.

(** The closure type of [[data]() { return data[3]; }]: one member, the
    copy of [data] made when the closure is built. *)
Record Lambda : Type := mkLambda { captured_data : array }.

(** Its [operator()] is const: it reads the member and leaves it alone. *)
#[export] Instance Lambda_callable : Callable Lambda :=
  fun self =>
    x ← array_index (captured_data self) 3;
    mret (x, self).

(** A callable given a call counter, to observe how often it is called:
    each call of the wrapper is one call of [inner] and one tick. *)
Record Counted (Func : Type) : Type := mkCounted { inner : Func; calls : nat }.

Arguments mkCounted {Func} inner calls.
Arguments inner {Func} c.
Arguments calls {Func} c.

#[export] Instance Counted_callable {Func} `{Callable Func} : Callable (Counted Func) :=
  fun self =>
    r ← call (inner self);
    mret (r.1, mkCounted r.2 (S (calls self))).

(** [n] calls of the same callable object, one after the other: the
    results in order and the object as the last call left it. *)
Fixpoint call_times {Func} `{Callable Func} (n : nat) (func : Func)
  : M (list float * Func) :=
  match n with
  | O => mret ([], func)
  | S k =>
      r ← call func;
      rs ← call_times k r.2;
      mret (r.1 :: rs.1, rs.2)
  end.

(** [invoke(func)] [n] times in a row on the same callable object, as a
    caller holding [func] in a variable does: the results in order and
    the object as the last call left it. *)
Fixpoint invoke_times {Func} `{Callable Func} (n : nat) (func : Func)
  : M (list float * Func) :=
  match n with
  | O => mret ([], func)
  | S k =>
      r ← invoke func;
      rs ← invoke_times k r.2;
      mret (r.1 :: rs.1, rs.2)
  end.

(** ** The program *)

(** The part of [process] up to the closure: the local [data] and the
    capture [[data]], which copies the variable's value into the closure. *)
Definition process_closure : M Lambda :=
  declare_local "data" (array_value_init 8);;
  data ← read_local "data";
  mret (mkLambda data).

(** [[[clang::realtime]] float process()] *)
Definition process : M float :=
  push_frame;;
  lambda ← process_closure;
  r ← invoke lambda;
  pop_frame;;
  mret (fst r).

(** [process()] called [n] times in a row, as a host calls a realtime
    callback block after block: the results in order. *)
Fixpoint process_times (n : nat) : M (list float) :=
  match n with
  | O => mret []
  | S k =>
      x ← process;
      xs ← process_times k;
      mret (x :: xs)
  end.

(** ** float to int *)

Definition INT_MIN : Z := - 2 ^ 31.
Definition INT_MAX : Z := 2 ^ 31 - 1.

(** The integer part of a finite float, rounding toward zero. *)
Definition float_truncate (x : float) : option Z :=
  match x with
  | S754_zero _ => Some 0%Z
  | S754_finite s m e =>
      let mag := if (0 <=? e)%Z then (Z.pos m * 2 ^ e)%Z
                 else (Z.pos m / 2 ^ (- e))%Z in
      Some (if s then (- mag)%Z else mag)
  | S754_infinity _ | S754_nan => None
  end.

(** The implicit conversion of [return process();] in [int main()]:
    defined only when the truncated value is an [int]. *)
Definition float_to_int (x : float) : M Z :=
  match float_truncate x with
  | Some z => if ((INT_MIN <=? z) && (z <=? INT_MAX))%Z then mret z
              else fault NotAnInt
  | None => fault NotAnInt
  end.

Definition status_line : string := "I should pass!" ++ newline.

(** How many lines a text ends: its newline characters. *)
Fixpoint line_count (s : string) : nat :=
  match s with
  | EmptyString => 0
  | String c rest =>
      (if Ascii.eqb c (ascii_of_nat 10) then 1 else 0) + line_count rest
  end.

(** [int main()] *)
Definition main : M Z :=
  cout_write status_line;;
  r ← process;
  float_to_int r.

(** ** Program order *)

(** [process] leaves the world as it finds it, so an outcome of [main]
    does not show whether the line was written before [process] ran or
    after.  To see the order, each statement of [main] records what it
    does as it does it. *)
Inductive Event : Type :=
| EvWrite (s : string)                (* text is sent to std::cout *)
| EvCall (fn : string)                (* the function [fn] is entered *)
| EvReturn (fn : string) (x : float). (* [fn] returns [x] *)

(** A computation together with the events of its run, oldest first; a
    run that ends undefined keeps the events up to there. *)
Definition Traced (A : Type) : Type := World -> list Event * Outcome A.

#[export] Instance Traced_ret : MRet Traced := fun A (a : A) w => ([], Done a w).

#[export] Instance Traced_bind : MBind Traced :=
  fun A B (k : A -> Traced B) (m : Traced A) w =>
    match m w with
    | (t, Done a w') => let '(t', o) := k a w' in ((t ++ t')%list, o)
    | (t, Undefined f) => (t, Undefined f)
    end.

(** The computation alone, its events dropped. *)
Definition erase {A} (m : Traced A) : M A := fun w => (m w).2.

(** A step that is neither a write nor a call. *)
Definition silent {A} (m : M A) : Traced A := fun w => ([], m w).

(** [std::cout << s], recorded. *)
Definition traced_write (s : string) : Traced unit :=
  fun w => ([EvWrite s], cout_write s w).

(** A call of the function [fn] with body [body], recorded on entry and,
    if the body returns, on return. *)
Definition traced_call (fn : string) (body : M float) : Traced float :=
  fun w => match body w with
           | Done x w' => ([EvCall fn; EvReturn fn x], Done x w')
           | Undefined f => ([EvCall fn], Undefined f)
           end.

(** [int main()], its statements in the order of the source: the write of
    line 20, then the call and the conversion of line 21. *)
Definition main_traced : Traced Z :=
  traced_write status_line;;
  r ← traced_call "process" process;
  silent (float_to_int r).

(** * Properties *)

(** ** Shared lemmas *)

Ltac run := unfold mbind, M_bind, mret, M_ret, fault; simpl.

Lemma process_closure_spec (fr : Frame) (o : string) (rest : list Frame) :
  process_closure {| stdout := o; stack := fr :: rest |} =
  Done (mkLambda (array_value_init 8))
       {| stdout := o; stack := <["data" := array_value_init 8]> fr :: rest |}.
Proof.
  unfold process_closure, declare_local, read_local. run.
  rewrite lookup_insert_eq. reflexivity.
Qed.

Lemma lambda_call_spec (d : array) (x : float) (w : World) :
  d !! 3 = Some x -> call (mkLambda d) w = Done (x, mkLambda d) w.
Proof.
  intros Hx. unfold call, Lambda_callable, array_index. run.
  rewrite Hx. reflexivity.
Qed.

Lemma array_lookup_3 (d : array) :
  length d = 8 -> exists x, d !! 3 = Some x.
Proof.
  intros Hlen. apply lookup_lt_is_Some. lia.
Qed.

Lemma invoke_spec {Func} `{Callable Func} (f : Func) (w : World) :
  invoke f w = call f w.
Proof.
  unfold invoke. run. destruct (call f w); reflexivity.
Qed.

Lemma process_spec (w : World) : process w = Done float_zero w.
Proof.
  destruct w as [o st]. unfold process, push_frame. run.
  rewrite process_closure_spec. reflexivity.
Qed.

Lemma main_spec (w : World) :
  main w = Done 0%Z {| stdout := stdout w ++ status_line; stack := stack w |}.
Proof.
  unfold main, cout_write. run. rewrite process_spec. reflexivity.
Qed.

(** The conversion rounds toward zero and refuses what [int] cannot hold. *)
Example float_to_int_negative :
  float_to_int (S754_finite true 13 (-2)) initial_world =
  Done (-3)%Z initial_world.
Proof. reflexivity. Qed.

Example float_to_int_too_large :
  float_to_int (S754_finite false 8388608 17) initial_world =
  Undefined NotAnInt.
Proof. reflexivity. Qed.

Example float_to_int_one :
  float_to_int float_one initial_world = Done 1%Z initial_world.
Proof. reflexivity. Qed.

(** ** The claims *)

(** C1: [process] takes no input and returns 0.0, the element at index 3
    of its zero-initialised 8-element buffer, leaving the world as it
    found it. *)
Theorem process_returns_zero (w : World) :
  array_value_init 8 !! 3 = Some float_zero /\
  process w = Done float_zero w.
Proof.
  split; [reflexivity | apply process_spec].
Qed.

(** C2: whenever a call of the callable [f] returns the float [c],
    [invoke f] returns exactly [c], with the world and the callable as
    that call left them. *)
Theorem invoke_returns_result {Func} `{Callable Func}
    (f f' : Func) (c : float) (w w' : World) :
  call f w = Done (c, f') w' ->
  invoke f w = Done (c, f') w'.
Proof.
  intros Hcall. rewrite invoke_spec. exact Hcall.
Qed.

Lemma invoke_returns_result_witness :
  call (mkLambda (array_value_init 8)) initial_world =
    Done (float_zero, mkLambda (array_value_init 8)) initial_world /\
  invoke (mkLambda (array_value_init 8)) initial_world =
    Done (float_zero, mkLambda (array_value_init 8)) initial_world.
Proof.
  split; [reflexivity |].
  apply (invoke_returns_result (mkLambda (array_value_init 8))).
  reflexivity.
Defined.

(** C3: one call of [invoke f] is one call of [f] and nothing else: its
    outcome is that of a single call of [f], and a counter attached to [f]
    goes up by exactly one while result, world and callable are those the
    single call leaves. *)
Theorem invoke_calls_once {Func} `{Callable Func}
    (f : Func) (n : nat) (w : World) :
  invoke f w = call f w /\
  invoke (mkCounted f n) w =
    match call f w with
    | Done (r, f') w' => Done (r, mkCounted f' (S n)) w'
    | Undefined e => Undefined e
    end.
Proof.
  split; [apply invoke_spec |].
  rewrite invoke_spec. unfold call at 1, Counted_callable. run.
  destruct (call f w) as [[r f'] w' | e]; reflexivity.
Qed.

(** Dropping the events of a sequence is sequencing without events. *)
Lemma erase_bind {A B} (m : Traced A) (k : A -> Traced B) (w : World) :
  erase (m ≫= k) w = (erase m ≫= (fun a => erase (k a))) w.
Proof.
  unfold erase, mbind, Traced_bind, M_bind.
  destruct (m w) as [t [a w' | f]]; [| reflexivity].
  simpl. destruct (k a w') as [t' o]. reflexivity.
Qed.

Lemma erase_traced_call (fn : string) (body : M float) (w : World) :
  erase (traced_call fn body) w = body w.
Proof.
  unfold erase, traced_call. destruct (body w); reflexivity.
Qed.

(** [main_traced] is [main] with its events recorded. *)
Lemma erase_main_traced (w : World) : erase main_traced w = main w.
Proof.
  unfold main_traced, main. rewrite erase_bind.
  unfold mbind at 1 3, M_bind at 1 2.
  change (erase (traced_write status_line) w) with (cout_write status_line w).
  destruct (cout_write status_line w) as [[] w1 | f]; [| reflexivity].
  rewrite erase_bind. unfold mbind, M_bind.
  rewrite erase_traced_call.
  destruct (process w1) as [x w2 | f]; reflexivity.
Qed.

(** Whatever the body of the callee does, a write followed by a call is
    recorded in that order. *)
Lemma write_then_call_order {A} (s fn : string) (body : M float)
    (k : float -> Traced A) (w : World) :
  exists rest o,
    (traced_write s;; r ← traced_call fn body; k r) w =
    (EvWrite s :: EvCall fn :: rest, o).
Proof.
  unfold mbind, Traced_bind, traced_write, traced_call, cout_write.
  destruct (body _) as [x w' | f].
  - destruct (k x w') as [t o]. eexists _, _. reflexivity.
  - eexists _, _. reflexivity.
Qed.

(** C4: a run of [main] writes the one line "I should pass!" and its
    newline to standard output, nothing else, and the write comes first:
    the events of the run are the write, then the entry of [process], then
    its return with 0.0; [process] runs in the world that already holds
    the line; and [main] then returns the status 0. *)
Theorem main_prints_then_exits (w : World) :
  let w1 := {| stdout := stdout w ++ status_line; stack := stack w |} in
  main_traced w =
    ([EvWrite status_line; EvCall "process"; EvReturn "process" float_zero],
     Done 0%Z w1) /\
  erase main_traced w = main w /\
  cout_write status_line w = Done tt w1 /\
  process w1 = Done float_zero w1 /\
  main w = Done 0%Z w1 /\
  main initial_world =
    Done 0%Z {| stdout := "I should pass!" ++ newline; stack := [] |} /\
  line_count status_line = 1.
Proof.
  simpl. split.
  - unfold main_traced, mbind, Traced_bind, traced_write, traced_call, silent.
    unfold cout_write. rewrite process_spec. reflexivity.
  - split; [apply erase_main_traced |].
    split; [reflexivity |].
    split; [apply process_spec |].
    split; [apply main_spec |].
    split; [rewrite main_spec |]; reflexivity.
Qed.

(** C5: the value [main] returns is the float returned by [process],
    truncated to an integer; that float is 0.0 and the value 0. *)
Theorem main_status_is_truncation (w : World) :
  exists (x : float) (w' : World),
    (cout_write status_line;; process) w = Done x w' /\
    main w = float_to_int x w' /\
    float_truncate x = Some 0%Z /\
    main w = Done 0%Z w'.
Proof.
  exists float_zero,
    {| stdout := stdout w ++ status_line; stack := stack w |}.
  split.
  - unfold cout_write. run. apply process_spec.
  - split; [| split]; [rewrite main_spec | | apply main_spec]; reflexivity.
Qed.

(** C6: the one access to the buffer is at index 3, inside [0,8): for a
    buffer of 8 floats the closure's [data[3]] finds an element and its
    call never ends out of range; the closure [process] builds holds such
    a buffer, and neither [process] nor [main] ends out of range. *)
Theorem buffer_access_in_range (d : array) (w : World) :
  length d = 8 ->
  3 < length d /\
  (exists x, d !! 3 = Some x /\
             array_index d 3 w = Done x w /\
             call (mkLambda d) w = Done (x, mkLambda d) w) /\
  (forall i n, call (mkLambda d) w <> Undefined (OutOfRange i n)) /\
  length (array_value_init 8) = 8 /\
  (forall i n, process w <> Undefined (OutOfRange i n)) /\
  (forall i n, main w <> Undefined (OutOfRange i n)).
Proof.
  intros Hlen. destruct (array_lookup_3 d Hlen) as [x Hx].
  split; [lia |]. split.
  - exists x. split; [exact Hx |]. split.
    + unfold array_index. rewrite Hx. reflexivity.
    + apply lambda_call_spec, Hx.
  - split; [intros i n; rewrite (lambda_call_spec d x w Hx); discriminate |].
    split; [reflexivity |].
    split; intros i n; [rewrite process_spec | rewrite main_spec]; discriminate.
Qed.

Lemma buffer_access_in_range_witness :
  length (array_value_init 8) = 8 /\
  call (mkLambda (array_value_init 8)) initial_world <>
    Undefined (OutOfRange 3 8).
Proof.
  split; [reflexivity |].
  apply (buffer_access_in_range (array_value_init 8) initial_world eq_refl).
Defined.

(** C7: the closure holds its own copy of the buffer.  Build it in the
    frame of [process], where the variable [data] lives and has the value
    the closure copied; leave the frame, which destroys the variable; the
    closure, called then in any world whatever, still returns 0.0 and
    keeps its copy. *)
Theorem closure_copy_independent (w : World) :
  exists (lambda : Lambda) (w1 : World),
    (push_frame;; process_closure) w = Done lambda w1 /\
    read_local "data" w1 = Done (captured_data lambda) w1 /\
    pop_frame w1 = Done tt w /\
    (push_frame;; l ← process_closure; pop_frame;; call l) w =
      Done (float_zero, lambda) w /\
    (forall w2, call lambda w2 = Done (float_zero, lambda) w2) /\
    read_local "data" initial_world = Undefined NoFrame.
Proof.
  destruct w as [o st].
  exists (mkLambda (array_value_init 8)),
    {| stdout := o; stack := <["data" := array_value_init 8]> ∅ :: st |}.
  split; [unfold push_frame; run; apply process_closure_spec |].
  split; [unfold read_local; simpl; rewrite lookup_insert_eq; reflexivity |].
  split; [reflexivity |].
  split; [unfold push_frame; run; rewrite process_closure_spec; reflexivity |].
  split; [intros w2; apply lambda_call_spec |]; reflexivity.
Qed.

(** C8: the program is deterministic and takes no input: from any two
    starting worlds [process] returns the same float and changes nothing,
    and [main] returns the same status and appends the same text to
    standard output. *)
Theorem program_deterministic (w1 w2 : World) :
  exists (x : float) (status : Z) (out : string),
    process w1 = Done x w1 /\
    process w2 = Done x w2 /\
    main w1 = Done status {| stdout := stdout w1 ++ out; stack := stack w1 |} /\
    main w2 = Done status {| stdout := stdout w2 ++ out; stack := stack w2 |}.
Proof.
  exists float_zero, 0%Z, status_line.
  repeat split; first [apply process_spec | apply main_spec].
Qed.

(** C9: the closure is pure and idempotent: called [n] times in a row it
    returns the same element each time, and leaves its copy of the buffer
    and the world unchanged. *)
Theorem lambda_call_idempotent (d : array) (x : float) (n : nat) (w : World) :
  d !! 3 = Some x ->
  call_times n (mkLambda d) w = Done (replicate n x, mkLambda d) w.
Proof.
  intros Hx. induction n as [| k IH]; [reflexivity |].
  cbn [call_times]. unfold mbind, M_bind at 1.
  rewrite (lambda_call_spec d x w Hx). cbn [fst snd].
  unfold M_bind at 1. rewrite IH. reflexivity.
Qed.

Lemma lambda_call_idempotent_witness :
  array_value_init 8 !! 3 = Some float_zero /\
  call_times 5 (mkLambda (array_value_init 8)) initial_world =
    Done ([float_zero; float_zero; float_zero; float_zero; float_zero],
          mkLambda (array_value_init 8)) initial_world.
Proof.
  split; [reflexivity |].
  apply (lambda_call_idempotent (array_value_init 8) float_zero 5 initial_world).
  reflexivity.
Defined.

(** C10: the closure's result depends on element 3 of the captured buffer
    alone: two closures over 8-element buffers that agree at index 3
    return the same float, whatever the other seven elements are. *)
Theorem lambda_depends_on_index_3_only (d1 d2 : array) (w : World) :
  length d1 = 8 -> length d2 = 8 ->
  d1 !! 3 = d2 !! 3 ->
  exists x,
    call (mkLambda d1) w = Done (x, mkLambda d1) w /\
    call (mkLambda d2) w = Done (x, mkLambda d2) w /\
    invoke (mkLambda d1) w = Done (x, mkLambda d1) w /\
    invoke (mkLambda d2) w = Done (x, mkLambda d2) w.
Proof.
  intros Hl1 _ Heq. destruct (array_lookup_3 d1 Hl1) as [x Hx].
  exists x. rewrite !invoke_spec.
  rewrite (lambda_call_spec d1 x w Hx).
  rewrite (lambda_call_spec d2 x w) by (rewrite <- Heq; exact Hx).
  repeat split.
Qed.

Lemma lambda_depends_on_index_3_only_witness :
  let d1 := array_value_init 8 in
  let d2 := [float_one; float_one; float_one; float_zero;
             float_one; float_one; float_one; float_one] in
  d1 <> d2 /\ d1 !! 3 = d2 !! 3 /\
  exists x,
    call (mkLambda d1) initial_world = Done (x, mkLambda d1) initial_world /\
    call (mkLambda d2) initial_world = Done (x, mkLambda d2) initial_world /\
    invoke (mkLambda d1) initial_world = Done (x, mkLambda d1) initial_world /\
    invoke (mkLambda d2) initial_world = Done (x, mkLambda d2) initial_world.
Proof.
  simpl. split; [discriminate |]. split; [reflexivity |].
  apply (lambda_depends_on_index_3_only
           (array_value_init 8)
           [float_one; float_one; float_one; float_zero;
            float_one; float_one; float_one; float_one]
           initial_world); reflexivity.
Defined.

(** ** Further properties of [invoke], [process] and the return of [main] *)

(** X1: wrapping calls in [invoke] changes nothing, also over time: [n]
    successive [invoke]s of one callable object give the results, the
    final object, the world and the fault, if any, of [n] direct calls. *)
Theorem invoke_times_is_call_times {Func} `{Callable Func}
    (n : nat) (f : Func) (w : World) :
  invoke_times n f w = call_times n f w.
Proof.
  revert f w. induction n as [| k IH]; intros f w; [reflexivity |].
  cbn [invoke_times call_times]. unfold mbind, M_bind at 1 3.
  rewrite invoke_spec.
  destruct (call f w) as [[r f'] w' | e]; [| reflexivity].
  cbn [fst snd]. unfold M_bind at 1 2. rewrite IH. reflexivity.
Qed.

(** X2: [invoke] neither drops nor repeats a call.  When [n] successive
    [invoke]s of a callable carrying a call counter complete, the counter
    has gone up by exactly [n], there are [n] results, and results, world
    and inner callable are those of the same run without the counter. *)
Theorem invoke_times_counts {Func} `{Callable Func}
    (n k : nat) (f : Func) (w w' : World)
    (rs : list float) (cf : Counted Func) :
  invoke_times n (mkCounted f k) w = Done (rs, cf) w' ->
  calls cf = k + n /\
  length rs = n /\
  invoke_times n f w = Done (rs, inner cf) w'.
Proof.
  revert k f w w' rs cf.
  induction n as [| m IH]; intros k f w w' rs cf Hrun.
  - inversion Hrun; subst. simpl. split; [lia |]. split; reflexivity.
  - revert Hrun. cbn [invoke_times]. unfold mbind, M_bind at 1 3.
    rewrite !invoke_spec. unfold call at 1, Counted_callable.
    unfold mbind, M_bind at 1. cbn [inner calls].
    destruct (call f w) as [[r f'] w1 | e]; [| discriminate].
    unfold mret at 1, M_ret. cbn [fst snd]. unfold M_bind at 1 2.
    destruct (invoke_times m (mkCounted f' (S k)) w1)
      as [[rs1 cf1] w2 | e] eqn:Hrest; [| discriminate].
    destruct (IH _ _ _ _ _ _ Hrest) as (Hc & Hl & Hplain).
    unfold M_bind at 1. rewrite Hplain. unfold mret, M_ret. cbn [fst snd].
    intros Hrun. inversion Hrun; subst.
    split; [lia |]. split; [simpl; lia | reflexivity].
Qed.

Lemma invoke_times_counts_witness :
  invoke_times 3 (mkCounted (mkLambda (array_value_init 8)) 4) initial_world =
    Done ([float_zero; float_zero; float_zero],
          mkCounted (mkLambda (array_value_init 8)) 7) initial_world /\
  7 = 4 + 3 /\
  length [float_zero; float_zero; float_zero] = 3 /\
  invoke_times 3 (mkLambda (array_value_init 8)) initial_world =
    Done ([float_zero; float_zero; float_zero],
          mkLambda (array_value_init 8)) initial_world.
Proof.
  split; [reflexivity |].
  apply (invoke_times_counts 3 4 (mkLambda (array_value_init 8))
           initial_world initial_world
           [float_zero; float_zero; float_zero]
           (mkCounted (mkLambda (array_value_init 8)) 7)).
  reflexivity.
Defined.

(** X3: [process] can be called again and again: [n] calls in a row
    return 0.0 each, and the world after them is the world before the
    first, so no frame is left behind and nothing is written. *)
Theorem process_times_spec (n : nat) (w : World) :
  process_times n w = Done (replicate n float_zero) w.
Proof.
  induction n as [| k IH]; [reflexivity |].
  cbn [process_times]. unfold mbind, M_bind at 1.
  rewrite process_spec. unfold M_bind at 1. rewrite IH. reflexivity.
Qed.

(** The magnitude [float_truncate] computes is the floor of [m * 2^e]. *)
Lemma truncated_magnitude_bounds (m : positive) (e : Z) :
  let mag := if (0 <=? e)%Z then (Z.pos m * 2 ^ e)%Z
             else (Z.pos m / 2 ^ (- e))%Z in
  (0 <= mag)%Z /\
  (mag * 2 ^ Z.max 0 (- e) <= Z.pos m * 2 ^ Z.max 0 e
   < (mag + 1) * 2 ^ Z.max 0 (- e))%Z.
Proof.
  simpl. destruct (Z.leb_spec 0 e) as [He | He].
  - rewrite (Z.max_r 0 e), (Z.max_l 0 (- e)) by lia.
    assert (0 < 2 ^ e)%Z by (apply Z.pow_pos_nonneg; lia).
    change (2 ^ 0)%Z with 1%Z. nia.
  - rewrite (Z.max_l 0 e), (Z.max_r 0 (- e)) by lia.
    assert (Hp : (0 < 2 ^ (- e))%Z) by (apply Z.pow_pos_nonneg; lia).
    change (2 ^ 0)%Z with 1%Z.
    pose proof (Z.mul_div_le (Z.pos m) _ Hp).
    pose proof (Z.mul_succ_div_gt (Z.pos m) _ Hp).
    assert (0 <= Z.pos m / 2 ^ (- e))%Z by (apply Z.div_pos; lia).
    nia.
Qed.

(** X4: the conversion at [return process();] rounds toward zero.  When
    it yields [z] for the finite float [(-1)^s * m * 2^e], the world is
    untouched, [z] is an [int], [z] has the float's sign, and
    [|z| <= m * 2^e < |z| + 1] (both sides scaled by [2^-e] when [e] is
    negative, to stay in the integers). *)
Theorem float_to_int_rounds_toward_zero
    (s : bool) (m : positive) (e z : Z) (w w' : World) :
  float_to_int (S754_finite s m e) w = Done z w' ->
  w' = w /\
  (INT_MIN <= z <= INT_MAX)%Z /\
  (if s then z <= 0 else 0 <= z)%Z /\
  (Z.abs z * 2 ^ Z.max 0 (- e) <= Z.pos m * 2 ^ Z.max 0 e
   < (Z.abs z + 1) * 2 ^ Z.max 0 (- e))%Z.
Proof.
  unfold float_to_int, float_truncate.
  pose proof (truncated_magnitude_bounds m e) as Hmag. simpl in Hmag.
  set (mag := if (0 <=? e)%Z then (Z.pos m * 2 ^ e)%Z
              else (Z.pos m / 2 ^ (- e))%Z) in *.
  set (v := if s then (- mag)%Z else mag).
  destruct ((INT_MIN <=? v)%Z && (v <=? INT_MAX)%Z) eqn:Hrange;
    [| discriminate].
  intros Hdone. inversion Hdone; subst z w'. clear Hdone.
  apply andb_prop in Hrange. destruct Hrange as [Hlo Hhi].
  apply Z.leb_le in Hlo, Hhi.
  destruct Hmag as [Hnonneg Hfloor].
  split; [reflexivity |]. split; [lia |].
  assert (Habs : Z.abs v = mag) by (subst v; destruct s; lia).
  rewrite Habs. split; [subst v; destruct s; lia | exact Hfloor].
Qed.

Lemma float_to_int_rounds_toward_zero_witness :
  float_to_int (S754_finite true 13 (-2)) initial_world =
    Done (-3)%Z initial_world /\
  (INT_MIN <= -3 <= INT_MAX)%Z /\
  (-3 <= 0)%Z /\
  (3 * 4 <= 13 * 1 < (3 + 1) * 4)%Z.
Proof.
  split; [reflexivity |].
  destruct (float_to_int_rounds_toward_zero true 13 (-2) (-3)
              initial_world initial_world eq_refl)
    as (_ & Hint & Hsign & Hfloor).
  split; [exact Hint |]. split; [exact Hsign | exact Hfloor].
Defined.
